(** * NCursesBridge: the inline C wrappers of [ncurses_bridge.h]

    The header wraps three macro or variadic ncurses entry points
    ([getmaxyx], [mvwprintw], [mvwaddch]) and six attribute macros in plain
    C functions.  The wrappers are embedded as small programs over the
    library calls they make; the library itself (ncurses, reached through
    [#include <ncurses.h>]) is the environment of those programs. *)

From Stdlib Require Import ZArith String Ascii List Lia DecimalString.
From stdpp Require Import base option gmap strings list.

Local Open Scope Z_scope.

(** ** C data *)

Module C.

(** [int] is a 32-bit two's complement integer. *)
Definition INT_MIN : Z := - 2 ^ 31.
Definition INT_MAX : Z := 2 ^ 31 - 1.

Definition is_int (v : Z) : Prop := INT_MIN <= v <= INT_MAX.

(** Conversion of an integer value to [int], as performed by [return e]
    in a function declared to return [int]: value preserving when the
    value is representable, wrap-around modulo 2^32 otherwise. *)
Definition to_int (v : Z) : Z := (v + 2 ^ 31) mod 2 ^ 32 - 2 ^ 31.

(** [chtype] is an unsigned 32-bit integer. *)
Definition CHTYPE_MAX : Z := 2 ^ 32 - 1.
Definition is_chtype (v : Z) : Prop := 0 <= v <= CHTYPE_MAX.
Definition to_chtype (v : Z) : Z := v mod 2 ^ 32.

(** Pointers are addresses; the null pointer is address 0. *)
Definition NULL : Z := 0.

(** The [unsigned char] value of a character of a C string. *)
Definition uchar (c : ascii) : Z := Z.of_N (N_of_ascii c).

End C.

(** ** The macros of [ncurses.h] the wrappers use

    The header is not part of the repository, so the wrappers are
    parametric in the values it gives to the attribute macros. *)

Record curses_macros : Type := CursesMacros {
  A_NORMAL : Z;
  A_STANDOUT : Z;
  A_UNDERLINE : Z;
  A_REVERSE : Z;
  A_BLINK : Z;
  A_DIM : Z;
  A_BOLD : Z;
  A_CHARTEXT : Z;
  A_ATTRIBUTES : Z
}.

(** The values ncurses gives to these macros, transcribed from the
    library's own [ncurses.h]: every attribute is one bit, placed by
    [NCURSES_BITS] above the [NCURSES_ATTR_SHIFT] low bits that hold the
    character. *)
Module NcursesH.

Definition NCURSES_ATTR_SHIFT : Z := 8.

(** [#define NCURSES_BITS(mask,shift) (NCURSES_CAST(chtype,(mask)) << ((shift) + NCURSES_ATTR_SHIFT))] *)
Definition NCURSES_BITS (mask shift : Z) : Z :=
  C.to_chtype (Z.shiftl (C.to_chtype mask) (shift + NCURSES_ATTR_SHIFT)).

Definition ERR : Z := -1.
Definition OK : Z := 0.

(** The colour pair field and the alternate character set bit of a
    [chtype]. *)
Definition A_COLOR : Z := NCURSES_BITS (Z.shiftl 1 8 - 1) 0.
Definition A_ALTCHARSET : Z := NCURSES_BITS 1 14.

Definition macros : curses_macros := {|
  A_NORMAL := 1 - 1;
  A_STANDOUT := NCURSES_BITS 1 8;
  A_UNDERLINE := NCURSES_BITS 1 9;
  A_REVERSE := NCURSES_BITS 1 10;
  A_BLINK := NCURSES_BITS 1 11;
  A_DIM := NCURSES_BITS 1 12;
  A_BOLD := NCURSES_BITS 1 13;
  A_CHARTEXT := NCURSES_BITS 1 0 - 1;
  A_ATTRIBUTES := NCURSES_BITS (Z.lnot (1 - 1)) 0
|}.

End NcursesH.

(** ** Library calls and wrapper programs *)

(** An argument passed through the [...] of a variadic call. *)
Inductive vararg : Type :=
| VStr (s : string)
| VInt (n : Z).

(** The ncurses entry points, each with its actual arguments.  The first
    four are the ones [ncurses_bridge.h] names; [wmove], [wattron],
    [wattroff] and [wgetch] are the library's cursor, attribute and
    keyboard entry points.  Every one of them returns [int]. *)
Inductive call : Type :=
| getmaxy (win : Z)
| getmaxx (win : Z)
| mvwprintw (win : Z) (y x : Z) (fmt : string) (args : list vararg)
| mvwaddch (win : Z) (y x : Z) (ch : Z)
| wmove (win : Z) (y x : Z)
| wattron (win : Z) (attrs : Z)
| wattroff (win : Z) (attrs : Z)
| wgetch (win : Z).

(** A C function body: return a value, call the library and continue with
    the [int] it returned, or store an [int] through a pointer. *)
Inductive prog (A : Type) : Type :=
| Ret (a : A)
| Lib (c : call) (k : Z -> prog A)
| Store (p : Z) (v : Z) (k : prog A).

Arguments Ret {A} a.
Arguments Lib {A} c k.
Arguments Store {A} p v k.

Declare Scope prog_scope.
Delimit Scope prog_scope with prog.
Notation "v <- c ;; k" := (Lib c (fun v => k))
  (at level 100, c at next level, right associativity) : prog_scope.
Notation "'*' p '::=' v ;; k" := (Store p v k)
  (at level 100, p at level 9, v at next level, right associativity) : prog_scope.
Notation "'return_' c" := (Lib c Ret) (at level 100) : prog_scope.

(** *** The wrappers of [ncurses_bridge.h] *)

Section Bridge.

Variable h : curses_macros.

Local Open Scope prog_scope.

(** [static inline void bridge_getmaxyx(WINDOW *win, int *y, int *x)] *)
Definition bridge_getmaxyx (win : Z) (y x : Z) : prog unit :=
  rows <- getmaxy win ;;
  * y ::= rows ;;
  cols <- getmaxx win ;;
  * x ::= cols ;;
  Ret tt.

(** [static inline int bridge_mvwprintw(WINDOW *win, int y, int x, const char *str)] *)
Definition bridge_mvwprintw (win : Z) (y x : Z) (str : string) : prog Z :=
  return_ mvwprintw win y x "%s" [VStr str].

(** [static inline int bridge_mvwaddch(WINDOW *win, int y, int x, chtype ch)] *)
Definition bridge_mvwaddch (win : Z) (y x : Z) (ch : Z) : prog Z :=
  return_ mvwaddch win y x ch.

(** The attribute macros as functions returning [int]. *)
Definition bridge_a_bold : prog Z := Ret (C.to_int (A_BOLD h)).
Definition bridge_a_normal : prog Z := Ret (C.to_int (A_NORMAL h)).
Definition bridge_a_dim : prog Z := Ret (C.to_int (A_DIM h)).
Definition bridge_a_reverse : prog Z := Ret (C.to_int (A_REVERSE h)).
Definition bridge_a_standout : prog Z := Ret (C.to_int (A_STANDOUT h)).
Definition bridge_a_underline : prog Z := Ret (C.to_int (A_UNDERLINE h)).

End Bridge.

(** ** Running a wrapper against a library *)

(** What a completed call of a wrapper leaves behind: its return value, the
    library's state, the caller's [int] objects and the library calls it
    made, in order. *)
Record outcome (T A : Type) : Type := Outcome {
  result : A;
  screen : T;
  memory : gmap Z Z;
  calls : list call
}.

Arguments Outcome {T A} result screen memory calls.
Arguments result {T A} o.
Arguments screen {T A} o.
Arguments memory {T A} o.
Arguments calls {T A} o.

Definition logged {T A : Type} (c : call) (o : outcome T A) : outcome T A :=
  Outcome (result o) (screen o) (memory o) (c :: calls o).

Section Run.

Context {T : Type}.

(** The library: what a call returns and how it changes the library's
    state; [None] when the call has no defined behaviour. *)
Variable lib : call -> T -> option (Z * T).

(** A store through the null pointer has no defined behaviour; every
    other address holds an [int] object of the caller, disjoint from the
    library's state. *)
Fixpoint run {A : Type} (p : prog A) (t : T) (m : gmap Z Z)
  : option (outcome T A) :=
  match p with
  | Ret a => Some (Outcome a t m [])
  | Lib c k =>
      match lib c t with
      | Some (v, t') => logged c <$> run (k v) t' m
      | None => None
      end
  | Store p v k =>
      if decide (p = C.NULL) then None else run k t (<[p := v]> m)
  end.

(** The library's accessors read the window and change nothing. *)
Definition pure_query : Prop :=
  forall (win : Z) (t : T),
    (exists rows, lib (getmaxy win) t = Some (rows, t)) /\
    (exists cols, lib (getmaxx win) t = Some (cols, t)).

End Run.

(** ** Formatted output

    The conversions of [printf] that take no flags, width or precision:
    [%%], [%s], [%c] and [%d].  [None] stands for a call without defined
    behaviour (a conversion with no argument or with one of the wrong
    type) and for the directives left out here. *)

Definition decimal (n : Z) : string :=
  match n with
  | Z0 => "0"
  | Zpos p => NilZero.string_of_uint (Pos.to_uint p)
  | Zneg p => String "-" (NilZero.string_of_uint (Pos.to_uint p))
  end.

Fixpoint vsprintf (fmt : string) (args : list vararg) : option string :=
  match fmt with
  | EmptyString => Some EmptyString
  | String "%" rest =>
      match rest with
      | String "%" rest' => String "%" <$> vsprintf rest' args
      | String "s" rest' =>
          match args with
          | VStr s :: args' => String.append s <$> vsprintf rest' args'
          | _ => None
          end
      | String "c" rest' =>
          match args with
          | VInt n :: args' =>
              String (ascii_of_N (Z.to_N (n mod 256))) <$> vsprintf rest' args'
          | _ => None
          end
      | String "d" rest' =>
          match args with
          | VInt n :: args' =>
              String.append (decimal n) <$> vsprintf rest' args'
          | _ => None
          end
      | _ => None
      end
  | String c rest => String c <$> vsprintf rest args
  end.

(** No ['%'] occurs in the string. *)
Fixpoint plain (s : string) : bool :=
  match s with
  | EmptyString => true
  | String c s' => negb (Ascii.eqb c "%") && plain s'
  end.

(** ** The library entry points in terms of its window primitives

    The window primitives of the library stay abstract: an implementation
    of them over some state [T] is a [curses T]. *)

Record curses (T : Type) : Type := Curses {
  win_getmaxy : Z -> T -> Z;
  win_getmaxx : Z -> T -> Z;
  win_wmove : Z -> Z -> Z -> T -> Z * T;
  win_waddch : Z -> Z -> T -> Z * T;
  win_wattron : Z -> Z -> T -> Z * T;
  win_wattroff : Z -> Z -> T -> Z * T;
  win_wgetch : Z -> T -> Z * T
}.

Arguments Curses {T}.
Arguments win_getmaxy {T} c win t.
Arguments win_getmaxx {T} c win t.
Arguments win_wmove {T} c win y x t.
Arguments win_waddch {T} c win ch t.
Arguments win_wattron {T} c win a t.
Arguments win_wattroff {T} c win a t.
Arguments win_wgetch {T} c win t.

(** [mvwaddch] is [wmove] followed by [waddch]; [mvwprintw] is [wmove]
    followed by the formatted text written as by [waddstr], which hands
    the characters to [waddch] one at a time and stops at the first
    failure. *)

Section Curses.

Import NcursesH.

Context {T : Type}.
Variable W : curses T.

Fixpoint waddstr (win : Z) (s : string) (t : T) : Z * T :=
  match s with
  | EmptyString => (OK, t)
  | String c s' =>
      let '(r, t') := win_waddch W win (C.uchar c) t in
      if decide (r = ERR) then (ERR, t') else waddstr win s' t'
  end.

Definition mvwaddstr (win y x : Z) (s : string) (t : T) : Z * T :=
  let '(r, t') := win_wmove W win y x t in
  if decide (r = ERR) then (ERR, t') else waddstr win s t'.

Definition mvwaddch_macro (win y x ch : Z) (t : T) : Z * T :=
  let '(r, t') := win_wmove W win y x t in
  if decide (r = ERR) then (ERR, t') else win_waddch W win ch t'.

Definition ncurses (c : call) (t : T) : option (Z * T) :=
  match c with
  | getmaxy win => Some (win_getmaxy W win t, t)
  | getmaxx win => Some (win_getmaxx W win t, t)
  | mvwprintw win y x fmt args =>
      let '(r, t') := win_wmove W win y x t in
      if decide (r = ERR) then Some (ERR, t')
      else (fun s => waddstr win s t') <$> vsprintf fmt args
  | mvwaddch win y x ch => Some (mvwaddch_macro win y x ch t)
  | wmove win y x => Some (win_wmove W win y x t)
  | wattron win a => Some (win_wattron W win a t)
  | wattroff win a => Some (win_wattroff W win a t)
  | wgetch win => Some (win_wgetch W win t)
  end.

End Curses.

(** ** A reference window

    A window as the library keeps it when none of its options is changed:
    a grid of cells [0.._maxy] x [0.._maxx] over a blank background
    without attributes, a cursor, the window attributes, no scrolling, the
    whole window as scrolling region, tab stops every 8 columns and
    characters of one byte.  The functions follow the library's [wmove],
    [waddch], [wattron] and [wattroff]; the keyboard is a queue of keys
    typed ahead, read without echo and without waiting.  It gives the
    window primitives a concrete reading on which the wrappers can be
    run. *)

Module RefWin.

Import NcursesH.

Record WINDOW : Type := Window {
  _cury : Z;
  _curx : Z;
  _maxy : Z;
  _maxx : Z;
  _attrs : Z;
  _wrapped : bool;
  _text : gmap (Z * Z) Z
}.

Record terminal : Type := Terminal {
  windows : gmap Z WINDOW;
  typeahead : list Z
}.

Definition update (win : Z) (w : WINDOW) (t : terminal) : terminal :=
  Terminal (<[win := w]> (windows t)) (typeahead t).

(** A library function on the window at address [win]; there is no
    window at an address that was never given one. *)
Definition on_window (win : Z) (f : WINDOW -> Z * WINDOW) (t : terminal)
  : Z * terminal :=
  match windows t !! win with
  | Some w => let '(r, w') := f w in (r, update win w' t)
  | None => (ERR, t)
  end.

Definition blank : Z := 32.

Definition legal (w : WINDOW) (y x : Z) : bool :=
  (0 <=? y) && (y <=? _maxy w) && (0 <=? x) && (x <=? _maxx w).

Definition at_cursor (y x : Z) (wrapped : bool) (w : WINDOW) : WINDOW :=
  Window y x (_maxy w) (_maxx w) (_attrs w) wrapped (_text w).

Definition with_text (text : gmap (Z * Z) Z) (w : WINDOW) : WINDOW :=
  Window (_cury w) (_curx w) (_maxy w) (_maxx w) (_attrs w) (_wrapped w) text.

Definition with_attrs (a : Z) (w : WINDOW) : WINDOW :=
  Window (_cury w) (_curx w) (_maxy w) (_maxx w) a (_wrapped w) (_text w).

Definition ref_getmaxy (win : Z) (t : terminal) : Z :=
  match windows t !! win with
  | Some w => _maxy w + 1
  | None => ERR
  end.

Definition ref_getmaxx (win : Z) (t : terminal) : Z :=
  match windows t !! win with
  | Some w => _maxx w + 1
  | None => ERR
  end.

(** [wmove]: a position inside the window becomes the cursor. *)
Definition move (y x : Z) (w : WINDOW) : Z * WINDOW :=
  if legal w y x then (OK, at_cursor y x false w) else (ERR, w).

Definition ref_wmove (win y x : Z) (t : terminal) : Z * terminal :=
  on_window win (move y x) t.

(** [render_char]: a character takes the window's attributes beside its
    own; a colour pair of its own goes before the window's. *)
Definition render_char (w : WINDOW) (ch : Z) : Z :=
  Z.lor ch (if Z.land ch A_COLOR =? 0 then _attrs w
            else Z.land (_attrs w) (Z.lnot A_COLOR)).

(** Past the right margin the cursor goes to the start of the next line;
    on the last line it stays in the corner and the call fails. *)
Definition wrap_to_next_line (w : WINDOW) : Z * WINDOW :=
  if _cury w + 1 >? _maxy w
  then (ERR, at_cursor (_maxy w) (_maxx w) true w)
  else (OK, at_cursor (_cury w + 1) 0 true w).

(** [waddch_literal]: the rendered character goes into the cell under the
    cursor and the cursor advances. *)
Definition waddch_literal (ch : Z) (w : WINDOW) : Z * WINDOW :=
  if legal w (_cury w) (_curx w) then
    let w1 := with_text (<[(_cury w, _curx w) := render_char w ch]> (_text w)) w in
    if _curx w + 1 >? _maxx w then wrap_to_next_line w1
    else (OK, at_cursor (_cury w) (_curx w + 1) (_wrapped w) w1)
  else (ERR, w).

Fixpoint clear_from (text : gmap (Z * Z) Z) (y x : Z) (n : nat)
  : gmap (Z * Z) Z :=
  match n with
  | O => text
  | S n' => clear_from (<[(y, x) := blank]> text) y (x + 1) n'
  end.

(** [wclrtoeol]: blanks from the cursor to the end of the line, on the
    line the cursor has just wrapped to but not in the corner it has
    wrapped at. *)
Definition wclrtoeol (w : WINDOW) : WINDOW :=
  let wrapped := _wrapped w && negb (_cury w <? _maxy w) in
  if wrapped || negb (legal w (_cury w) (_curx w))
  then at_cursor (_cury w) (_curx w) wrapped w
  else with_text (clear_from (_text w) (_cury w) (_curx w)
                    (Z.to_nat (_maxx w - _curx w + 1)))
         (at_cursor (_cury w) (_curx w) false w).

(** The blanks of a tab: literal blanks while the cursor is left of
    column [x]; a blank that fails ends the tab where the cursor is. *)
Fixpoint tab_fill (n : nat) (sp x : Z) (w : WINDOW) : Z * WINDOW :=
  match n with
  | O => (x, w)
  | S n' =>
      if _curx w <? x then
        let '(r, w') := waddch_literal sp w in
        if decide (r = ERR) then (_curx w', w') else tab_fill n' sp x w'
      else (x, w)
  end.

(** [unctrl]: a control character is shown as a caret and a letter. *)
Definition unctrl (t : Z) : list Z :=
  if t =? 127 then [94; 63] else [94; t + 64].

Fixpoint add_literals (cs : list Z) (attrs : Z) (w : WINDOW) : Z * WINDOW :=
  match cs with
  | [] => (OK, w)
  | c :: cs' =>
      let '(r, w') := waddch_literal (Z.lor c attrs) w in
      if decide (r = ERR) then (ERR, w') else add_literals cs' attrs w'
  end.

(** [waddch]: printable characters, characters above 127 and characters
    of the alternate set go into the cell; tab, newline, carriage return
    and backspace move the cursor; the other control characters are
    written as [unctrl] shows them. *)
Definition addch (ch : Z) (w : WINDOW) : Z * WINDOW :=
  let t := Z.land ch (A_CHARTEXT macros) in
  let y := _cury w in
  let x := _curx w in
  if negb (Z.land ch A_ALTCHARSET =? 0) || ((32 <=? t) && (t <=? 126))
     || (128 <=? t)
  then waddch_literal ch w
  else if negb (legal w y x) then (ERR, w)
  else if t =? 9 then
    let x' := x + (8 - x mod 8) in
    if (y =? _maxy w) || (x' <=? _maxx w) then
      let '(x'', w') :=
        tab_fill (Z.to_nat (x' - x))
          (Z.lor blank (Z.land ch (A_ATTRIBUTES macros))) x' w in
      (OK, at_cursor y x'' (_wrapped w') w')
    else (OK, at_cursor (y + 1) 0 true (wclrtoeol w))
  else if t =? 10 then
    let w' := wclrtoeol w in
    if y =? _maxy w then (ERR, w') else (OK, at_cursor (y + 1) 0 false w')
  else if t =? 13 then (OK, at_cursor y 0 false w)
  else if t =? 8 then
    if x =? 0 then (OK, w) else (OK, at_cursor y (x - 1) false w)
  else add_literals (unctrl t) (Z.land ch (A_ATTRIBUTES macros)) w.

Definition ref_waddch (win ch : Z) (t : terminal) : Z * terminal :=
  on_window win (addch ch) t.

(** [wattron] and [wattroff]: a colour pair among the attributes takes the
    place of the window's pair, resp. takes the window's pair away. *)
Definition attr_on (a : Z) (w : WINDOW) : Z * WINDOW :=
  (OK, with_attrs (if Z.land a A_COLOR =? 0 then Z.lor (_attrs w) a
                   else Z.lor (Z.land (_attrs w) (Z.lnot A_COLOR)) a) w).

Definition attr_off (a : Z) (w : WINDOW) : Z * WINDOW :=
  (OK, with_attrs (if Z.land a A_COLOR =? 0 then Z.land (_attrs w) (Z.lnot a)
                   else Z.land (_attrs w) (Z.lnot (Z.lor a A_COLOR))) w).

Definition ref_wattron (win a : Z) (t : terminal) : Z * terminal :=
  on_window win (attr_on a) t.

Definition ref_wattroff (win a : Z) (t : terminal) : Z * terminal :=
  on_window win (attr_off a) t.

Definition ref_wgetch (win : Z) (t : terminal) : Z * terminal :=
  match windows t !! win, typeahead t with
  | Some _, key :: keys => (key, Terminal (windows t) keys)
  | _, _ => (ERR, t)
  end.

Definition ops : curses terminal :=
  Curses ref_getmaxy ref_getmaxx ref_wmove ref_waddch
         ref_wattron ref_wattroff ref_wgetch.

Definition lib : call -> terminal -> option (Z * terminal) := ncurses ops.

(** A blank window of [rows] x [cols] cells at address [win], with the
    cursor at the origin and no window attributes. *)
Definition newwin (win rows cols : Z) : terminal :=
  Terminal {[ win := Window 0 0 (rows - 1) (cols - 1) 0 false ∅ ]} [].

(** The cell of window [win] at row [y], column [x]: what was put there,
    or the blank of the background. *)
Definition cell (t : terminal) (win y x : Z) : option Z :=
  w ← windows t !! win;
  if legal w y x then Some (default blank (_text w !! (y, x))) else None.

(** The attributes of window [win]. *)
Definition attrs_of (t : terminal) (win : Z) : option Z :=
  _attrs <$> windows t !! win.

End RefWin.

(** ** Notions used in the statements *)

(** The outcome of a body that makes the one library call [c] and returns
    what the call returned. *)
Definition forwarded {T : Type} (lib : call -> T -> option (Z * T))
    (c : call) (t : T) (m : gmap Z Z) : option (outcome T Z) :=
  match lib c t with
  | Some (r, t') => Some (Outcome r t' m [c])
  | None => None
  end.

(** Result and effect of a call: what it returned and the states it left,
    without the record of how it got there. *)
Definition behaviour {T A : Type} (o : outcome T A) : A * T * gmap Z Z :=
  (result o, screen o, memory o).

(** [p] returns [v] whatever the library and its state are, calls nothing
    and changes nothing. *)
Definition returns (p : prog Z) (v : Z) : Prop :=
  forall (T : Type) (lib : call -> T -> option (Z * T)) (t : T) (m : gmap Z Z),
    run lib p t m = Some (Outcome v t m []).

(** The six attribute macros have values an [int] can hold. *)
Definition int_macros (h : curses_macros) : Prop :=
  C.is_int (A_BOLD h) /\ C.is_int (A_NORMAL h) /\ C.is_int (A_DIM h) /\
  C.is_int (A_REVERSE h) /\ C.is_int (A_STANDOUT h) /\ C.is_int (A_UNDERLINE h).

(** [bridge_getmaxyx] has left the height in [*y] and the width in [*x]. *)
Definition stores_size {T : Type} (W : curses T) (win y x : Z) (t : T)
    (m : gmap Z Z) : Prop :=
  exists o, run (ncurses W) (bridge_getmaxyx win y x) t m = Some o /\
            memory o !! y = Some (win_getmaxy W win t) /\
            memory o !! x = Some (win_getmaxx W win t).

(** The attribute bits of [ch] that are none of bold, dim, reverse,
    standout, underline, normal. *)
Definition recognized (h : curses_macros) : Z :=
  Z.lor (A_BOLD h) (Z.lor (A_DIM h) (Z.lor (A_REVERSE h)
    (Z.lor (A_STANDOUT h) (Z.lor (A_UNDERLINE h) (A_NORMAL h))))).

Definition unknown_flags (h : curses_macros) (ch : Z) : Z :=
  Z.land (Z.land ch (A_ATTRIBUTES h)) (Z.lnot (recognized h)).

(** *** The surface of the header *)

(** The capabilities a terminal control surface is asked for. *)
Inductive capability : Type :=
| QuerySize
| MoveCursor
| WriteCharAt
| SetAttribute
| ClearAttribute
| ReadKey.

(** A request a caller makes of the surface. *)
Inductive request : Type :=
| query_size (win py px : Z)
| move_cursor (win y x : Z)
| write_char_at (win y x ch : Z)
| set_attribute (win attrs : Z)
| clear_attribute (win attrs : Z)
| read_key (win : Z).

Definition capability_of (q : request) : capability :=
  match q with
  | query_size _ _ _ => QuerySize
  | move_cursor _ _ _ => MoveCursor
  | write_char_at _ _ _ _ => WriteCharAt
  | set_attribute _ _ => SetAttribute
  | clear_attribute _ _ => ClearAttribute
  | read_key _ => ReadKey
  end.

(** The two sizes are asked for through two distinct non-null pointers. *)
Definition well_formed (q : request) : Prop :=
  match q with
  | query_size _ py px => py <> C.NULL /\ px <> C.NULL /\ py <> px
  | _ => True
  end.

(** What carrying out a request gives the caller, in terms of the window
    primitives: the status (the size query has none), the library's state
    and the caller's [int] objects.  The size query leaves the height in
    [*py] and the width in [*px]; the others are the library's [wmove],
    [wmove] then [waddch], [wattron], [wattroff] and [wgetch]. *)
Definition carried_out {T : Type} (W : curses T) (q : request) (t : T)
    (m : gmap Z Z) : option Z * T * gmap Z Z :=
  match q with
  | query_size win py px =>
      (None, t, <[px := win_getmaxx W win t]> (<[py := win_getmaxy W win t]> m))
  | move_cursor win y x =>
      let '(r, t') := win_wmove W win y x t in (Some r, t', m)
  | write_char_at win y x ch =>
      let '(r, t') := mvwaddch_macro W win y x ch t in (Some r, t', m)
  | set_attribute win a =>
      let '(r, t') := win_wattron W win a t in (Some r, t', m)
  | clear_attribute win a =>
      let '(r, t') := win_wattroff W win a t in (Some r, t', m)
  | read_key win =>
      let '(r, t') := win_wgetch W win t in (Some r, t', m)
  end.

(** A call of one of the nine functions the header defines. *)
Inductive entry : Type :=
| call_getmaxyx (win y x : Z)
| call_mvwprintw (win y x : Z) (str : string)
| call_mvwaddch (win y x ch : Z)
| call_a_bold
| call_a_normal
| call_a_dim
| call_a_reverse
| call_a_standout
| call_a_underline.

Definition with_status {T : Type} (o : outcome T Z) : option Z * T * gmap Z Z :=
  (Some (result o), screen o, memory o).

Definition without_status {T : Type} (o : outcome T unit)
  : option Z * T * gmap Z Z :=
  (None, screen o, memory o).

(** What such a call gives its caller. *)
Definition entry_outcome {T : Type} (h : curses_macros)
    (lib : call -> T -> option (Z * T)) (e : entry) (t : T) (m : gmap Z Z)
  : option (option Z * T * gmap Z Z) :=
  match e with
  | call_getmaxyx win y x =>
      without_status <$> run lib (bridge_getmaxyx win y x) t m
  | call_mvwprintw win y x str =>
      with_status <$> run lib (bridge_mvwprintw win y x str) t m
  | call_mvwaddch win y x ch =>
      with_status <$> run lib (bridge_mvwaddch win y x ch) t m
  | call_a_bold => with_status <$> run lib (bridge_a_bold h) t m
  | call_a_normal => with_status <$> run lib (bridge_a_normal h) t m
  | call_a_dim => with_status <$> run lib (bridge_a_dim h) t m
  | call_a_reverse => with_status <$> run lib (bridge_a_reverse h) t m
  | call_a_standout => with_status <$> run lib (bridge_a_standout h) t m
  | call_a_underline => with_status <$> run lib (bridge_a_underline h) t m
  end.

(** The library's [wmove] answers [OK] or [ERR]. *)
Definition conventional {T : Type} (W : curses T) : Prop :=
  forall (win y x : Z) (t : T),
    (win_wmove W win y x t).1 = NcursesH.OK \/
    (win_wmove W win y x t).1 = NcursesH.ERR.

(** The call [e] answers the request [q]: with every such library and in
    every state it gives the caller what carrying out [q] gives. *)
Definition answers (e : entry) (q : request) : Prop :=
  forall (T : Type) (W : curses T) (h : curses_macros) (t : T) (m : gmap Z Z),
    conventional W ->
    entry_outcome h (ncurses W) e t m = Some (carried_out W q t m).

(** The header provides a capability when every well-formed request for
    it is answered by a call of one of the header's functions. *)
Definition provides (cap : capability) : Prop :=
  forall q : request, capability_of q = cap -> well_formed q ->
    exists e : entry, answers e q.

(** Two states of the reference terminal with the same window attributes
    and the same keys typed ahead. *)
Definition same_attrs_and_keys (t t' : RefWin.terminal) : Prop :=
  RefWin.typeahead t' = RefWin.typeahead t /\
  forall win : Z, RefWin.attrs_of t' win = RefWin.attrs_of t win.

(** The flags of a list have no bit in common, pair by pair. *)
Fixpoint disjoint_flags (l : list Z) : Prop :=
  match l with
  | [] => True
  | a :: l' => Forall (fun b => Z.land a b = 0) l' /\ disjoint_flags l'
  end.

(** The five attribute functions other than [bridge_a_normal]. *)
Definition attribute_functions (h : curses_macros) : list (prog Z) :=
  [bridge_a_bold h; bridge_a_dim h; bridge_a_reverse h;
   bridge_a_standout h; bridge_a_underline h].

(** * Properties *)

(** ** Formatted output *)

Lemma append_empty_r (s : string) : String.append s EmptyString = s.
Proof.
  induction s as [|c s IH]; [reflexivity |].
  change (String c (String.append s EmptyString) = String c s).
  now rewrite IH.
Qed.

(** ["%s"] with a string argument yields the argument, whatever it holds. *)
Lemma vsprintf_percent_s (str : string) :
  vsprintf "%s" [VStr str] = Some str.
Proof. simpl. now rewrite append_empty_r. Qed.

(** A format without ['%'] yields itself and takes no argument. *)
Lemma vsprintf_plain (s : string) (args : list vararg) :
  plain s = true -> vsprintf s args = Some s.
Proof.
  induction s as [|c s IH]; simpl; [reflexivity |].
  intros Hp. apply andb_prop in Hp as [Hc Hs].
  rewrite (IH Hs).
  destruct (Ascii.eqb_spec c "%") as [-> | Hne]; [discriminate |].
  destruct c as [[] [] [] [] [] [] [] []]; try reflexivity.
  now contradiction Hne.
Qed.

(** ** Running forwarding bodies *)

Lemma run_forward {T : Type} (lib : call -> T -> option (Z * T))
    (c : call) (t : T) (m : gmap Z Z) :
  run lib (Lib c Ret) t m = forwarded lib c t m.
Proof.
  unfold forwarded. simpl. destruct (lib c t) as [[r t'] |]; reflexivity.
Qed.

Lemma to_int_representable (v : Z) : C.is_int v -> C.to_int v = v.
Proof.
  unfold C.is_int, C.INT_MIN, C.INT_MAX, C.to_int. intros Hv.
  rewrite Z.mod_small by lia. lia.
Qed.

Lemma ncurses_pure_query {T : Type} (W : curses T) : pure_query (ncurses W).
Proof. intros win t. split; eexists; reflexivity. Qed.

(** ** The wrappers against the calls they name *)

(** C1, as stated, fails for [bridge_mvwprintw]: on the string ["%%"] the
    wrapper leaves two percent signs in the window, while
    [mvwprintw(win, y, x, str)], which reads [str] as the format, leaves
    one; the second cell of the row tells them apart. *)
Lemma bridge_mvwprintw_differs_from_mvwprintw_of_str :
  behaviour <$> run RefWin.lib (bridge_mvwprintw 1 0 0 "%%") (RefWin.newwin 1 3 10) ∅
  <> behaviour <$> run RefWin.lib (Lib (mvwprintw 1 0 0 "%%" []) Ret) (RefWin.newwin 1 3 10) ∅.
Proof.
  intros H.
  apply (f_equal (fmap (fun b : Z * RefWin.terminal * gmap Z Z =>
                          RefWin.cell (b.1.2) 1 0 1))) in H.
  vm_compute in H. discriminate H.
Qed.

(** C1, amended: every wrapper is the library call of its body and
    nothing more.  [bridge_mvwaddch(win,y,x,ch)] is [mvwaddch(win,y,x,ch)];
    [bridge_mvwprintw(win,y,x,str)] is [mvwprintw(win,y,x,"%s",str)], which
    behaves as [mvwprintw(win,y,x,str)] when [str] holds no ['%'];
    [bridge_getmaxyx(win,y,x)] with non-null pointers reads [getmaxy(win)]
    into [*y] and then [getmaxx(win)] into [*x]. *)
Theorem bridge_forwards {T : Type} (W : curses T) (win y x ch : Z)
    (str : string) (py px : Z) (t : T) (m : gmap Z Z) :
  run (ncurses W) (bridge_mvwaddch win y x ch) t m
    = forwarded (ncurses W) (mvwaddch win y x ch) t m /\
  run (ncurses W) (bridge_mvwprintw win y x str) t m
    = forwarded (ncurses W) (mvwprintw win y x "%s" [VStr str]) t m /\
  (plain str = true ->
   behaviour <$> run (ncurses W) (bridge_mvwprintw win y x str) t m
     = behaviour <$> forwarded (ncurses W) (mvwprintw win y x str []) t m) /\
  (py <> C.NULL -> px <> C.NULL ->
   run (ncurses W) (bridge_getmaxyx win py px) t m
     = Some (Outcome tt t
               (<[px := win_getmaxx W win t]> (<[py := win_getmaxy W win t]> m))
               [getmaxy win; getmaxx win])).
Proof.
  split; [apply run_forward |].
  split; [apply run_forward |].
  split.
  - intros Hplain. unfold bridge_mvwprintw. rewrite run_forward.
    unfold forwarded, ncurses.
    rewrite vsprintf_percent_s, (vsprintf_plain str [] Hplain).
    destruct (win_wmove W win y x t) as [r t1].
    destruct (decide (r = NcursesH.ERR)); simpl; [reflexivity |].
    destruct (waddstr W win str t1); reflexivity.
  - intros Hy Hx. unfold bridge_getmaxyx. simpl.
    destruct (decide (py = C.NULL)) as [|_]; [contradiction |].
    destruct (decide (px = C.NULL)) as [|_]; [contradiction |].
    reflexivity.
Qed.

Lemma bridge_forwards_witness :
  plain "hi" = true /\ 100 <> C.NULL /\ 104 <> C.NULL /\
  behaviour <$> run RefWin.lib (bridge_mvwprintw 1 0 0 "hi") (RefWin.newwin 1 3 10) ∅
    = behaviour <$> forwarded RefWin.lib (mvwprintw 1 0 0 "hi" []) (RefWin.newwin 1 3 10) ∅ /\
  memory <$> run RefWin.lib (bridge_getmaxyx 1 100 104) (RefWin.newwin 1 3 10) ∅
    = Some (<[104 := 10]> (<[100 := 3]> ∅)).
Proof.
  destruct (bridge_forwards RefWin.ops 1 0 0 88 "hi" 100 104 (RefWin.newwin 1 3 10) ∅)
    as (_ & _ & Hprint & Hsize).
  split; [reflexivity |].
  split; [discriminate |].
  split; [discriminate |].
  split.
  - apply Hprint. reflexivity.
  - unfold RefWin.lib. rewrite Hsize by discriminate. reflexivity.
Defined.

(** C2: for every string, with or without ['%'], [bridge_mvwprintw] moves
    to [(y, x)] and hands the characters of [str] itself to the window, one
    by one as [waddstr] does; the string never takes the place of the
    format. *)
Theorem bridge_mvwprintw_verbatim {T : Type} (W : curses T) (win y x : Z)
    (str : string) (t : T) (m : gmap Z Z) :
  run (ncurses W) (bridge_mvwprintw win y x str) t m
    = Some (let '(r, t') := mvwaddstr W win y x str t in
            Outcome r t' m [mvwprintw win y x "%s" [VStr str]]).
Proof.
  unfold bridge_mvwprintw. rewrite run_forward.
  unfold forwarded, ncurses, mvwaddstr.
  rewrite vsprintf_percent_s.
  destruct (win_wmove W win y x t) as [r t1].
  destruct (decide (r = NcursesH.ERR)); simpl; [reflexivity |].
  destruct (waddstr W win str t1); reflexivity.
Qed.

(** C7: [bridge_mvwaddch] and [bridge_mvwprintw] make exactly one library
    call and return its status [r] as it is, the failure status included;
    nothing is called a second time. *)
Theorem bridge_write_single_call {T : Type}
    (lib : call -> T -> option (Z * T)) (win y x ch : Z) (str : string)
    (t : T) (m : gmap Z Z) (r : Z) (t' : T) :
  (lib (mvwaddch win y x ch) t = Some (r, t') ->
   run lib (bridge_mvwaddch win y x ch) t m
     = Some (Outcome r t' m [mvwaddch win y x ch])) /\
  (lib (mvwprintw win y x "%s" [VStr str]) t = Some (r, t') ->
   run lib (bridge_mvwprintw win y x str) t m
     = Some (Outcome r t' m [mvwprintw win y x "%s" [VStr str]])).
Proof.
  split; intros Hlib.
  - unfold bridge_mvwaddch. rewrite run_forward. unfold forwarded.
    now rewrite Hlib.
  - unfold bridge_mvwprintw. rewrite run_forward. unfold forwarded.
    now rewrite Hlib.
Qed.

(** A write that fails: row 7 is outside the three rows of the window. *)
Lemma bridge_write_single_call_witness :
  RefWin.lib (mvwaddch 1 7 0 88) (RefWin.newwin 1 3 10)
    = Some (NcursesH.ERR, RefWin.newwin 1 3 10) /\
  RefWin.lib (mvwprintw 1 7 0 "%s" [VStr "no"]) (RefWin.newwin 1 3 10)
    = Some (NcursesH.ERR, RefWin.newwin 1 3 10) /\
  run RefWin.lib (bridge_mvwaddch 1 7 0 88) (RefWin.newwin 1 3 10) ∅
    = Some (Outcome NcursesH.ERR (RefWin.newwin 1 3 10) ∅ [mvwaddch 1 7 0 88]) /\
  run RefWin.lib (bridge_mvwprintw 1 7 0 "no") (RefWin.newwin 1 3 10) ∅
    = Some (Outcome NcursesH.ERR (RefWin.newwin 1 3 10) ∅
              [mvwprintw 1 7 0 "%s" [VStr "no"]]).
Proof.
  destruct (bridge_write_single_call RefWin.lib 1 7 0 88 "no"
              (RefWin.newwin 1 3 10) ∅ NcursesH.ERR (RefWin.newwin 1 3 10))
    as (Hch & Hstr).
  split; [reflexivity |].
  split; [reflexivity |].
  split; [apply Hch | apply Hstr]; reflexivity.
Defined.

(** ** The size query *)

Lemma run_bridge_getmaxyx {T : Type} (lib : call -> T -> option (Z * T))
    (win py px : Z) (t : T) (m : gmap Z Z) (rows cols : Z) :
  lib (getmaxy win) t = Some (rows, t) ->
  lib (getmaxx win) t = Some (cols, t) ->
  py <> C.NULL -> px <> C.NULL ->
  run lib (bridge_getmaxyx win py px) t m
    = Some (Outcome tt t (<[px := cols]> (<[py := rows]> m))
              [getmaxy win; getmaxx win]).
Proof.
  intros Hrows Hcols Hy Hx. unfold bridge_getmaxyx. simpl.
  rewrite Hrows.
  destruct (decide (py = C.NULL)) as [|_]; [contradiction |].
  rewrite Hcols.
  destruct (decide (px = C.NULL)) as [|_]; [contradiction |].
  reflexivity.
Qed.

(** C4, as stated, fails when the two pointers are the same non-null
    address: the second store overwrites the first, so the [int] at that
    address ends as the width (10) and not as the height (3). *)
Lemma bridge_getmaxyx_aliased_pointers :
  100 <> C.NULL /\
  ~ stores_size RefWin.ops 1 100 100 (RefWin.newwin 1 3 10) ∅.
Proof.
  split; [discriminate |].
  intros (o & Hrun & Hy & Hx).
  rewrite Hy in Hx. vm_compute in Hx. discriminate Hx.
Qed.

(** C4, amended: for non-null pointers the call completes and leaves the
    window's width, [getmaxx(win)], in [*x]; when the pointers are also
    distinct it leaves the window's height, [getmaxy(win)], in [*y]. *)
Theorem bridge_getmaxyx_stores_size {T : Type} (W : curses T)
    (win py px : Z) (t : T) (m : gmap Z Z) :
  py <> C.NULL -> px <> C.NULL ->
  (exists o, run (ncurses W) (bridge_getmaxyx win py px) t m = Some o /\
             memory o !! px = Some (win_getmaxx W win t)) /\
  (py <> px -> stores_size W win py px t m).
Proof.
  intros Hy Hx.
  pose proof (run_bridge_getmaxyx (ncurses W) win py px t m _ _
                eq_refl eq_refl Hy Hx) as Hrun.
  split.
  - eexists. split; [exact Hrun |]. simpl. apply lookup_insert_eq.
  - intros Hne. eexists. split; [exact Hrun |]. simpl. split.
    + rewrite lookup_insert_ne by congruence. apply lookup_insert_eq.
    + apply lookup_insert_eq.
Qed.

Lemma bridge_getmaxyx_stores_size_witness :
  100 <> C.NULL /\ 104 <> C.NULL /\ 100 <> 104 /\
  stores_size RefWin.ops 1 100 104 (RefWin.newwin 1 3 10) ∅.
Proof.
  split; [discriminate |].
  split; [discriminate |].
  split; [discriminate |].
  apply (bridge_getmaxyx_stores_size RefWin.ops 1 100 104 (RefWin.newwin 1 3 10) ∅);
    discriminate.
Defined.

(** C9: for distinct non-null pointers, and a library whose accessors only
    read, [bridge_getmaxyx] completes having called nothing but [getmaxy]
    and [getmaxx]; the library's state is the one it started from and
    every [int] other than [*y] and [*x] keeps its value. *)
Theorem bridge_getmaxyx_frame {T : Type} (lib : call -> T -> option (Z * T))
    (win py px : Z) (t : T) (m : gmap Z Z) :
  pure_query lib ->
  py <> C.NULL -> px <> C.NULL -> py <> px ->
  exists o, run lib (bridge_getmaxyx win py px) t m = Some o /\
            screen o = t /\
            calls o = [getmaxy win; getmaxx win] /\
            forall p : Z, p <> py -> p <> px -> memory o !! p = m !! p.
Proof.
  intros Hpure Hy Hx _.
  destruct (Hpure win t) as [[rows Hrows] [cols Hcols]].
  eexists. split; [exact (run_bridge_getmaxyx lib win py px t m rows cols
                            Hrows Hcols Hy Hx) |].
  simpl. repeat split.
  intros p Hpy Hpx.
  rewrite lookup_insert_ne by congruence.
  now rewrite lookup_insert_ne by congruence.
Qed.

Lemma bridge_getmaxyx_frame_witness :
  pure_query RefWin.lib /\ 100 <> C.NULL /\ 104 <> C.NULL /\ 100 <> 104 /\
  exists o, run RefWin.lib (bridge_getmaxyx 1 100 104) (RefWin.newwin 1 3 10)
              {[ 108 := 7 ]} = Some o /\
            screen o = RefWin.newwin 1 3 10 /\
            calls o = [getmaxy 1; getmaxx 1] /\
            forall p : Z, p <> 100 -> p <> 104 ->
                          memory o !! p = ({[ 108 := 7 ]} : gmap Z Z) !! p.
Proof.
  split; [apply ncurses_pure_query |].
  split; [discriminate |].
  split; [discriminate |].
  split; [discriminate |].
  apply (bridge_getmaxyx_frame RefWin.lib 1 100 104 (RefWin.newwin 1 3 10)
           {[ 108 := 7 ]});
    [apply ncurses_pure_query | discriminate ..].
Defined.

(** ** The attribute functions *)

Lemma returns_ret (v w : Z) : C.to_int v = w -> returns (Ret (C.to_int v)) w.
Proof. intros <- T lib t m. reflexivity. Qed.

(** C5: when the header's six attribute macros have values an [int] can
    hold, each [bridge_a_*] function returns exactly the value of its
    macro, in every state and without calling the library. *)
Theorem bridge_attribute_values (h : curses_macros) :
  int_macros h ->
  returns (bridge_a_bold h) (A_BOLD h) /\
  returns (bridge_a_normal h) (A_NORMAL h) /\
  returns (bridge_a_dim h) (A_DIM h) /\
  returns (bridge_a_reverse h) (A_REVERSE h) /\
  returns (bridge_a_standout h) (A_STANDOUT h) /\
  returns (bridge_a_underline h) (A_UNDERLINE h).
Proof.
  intros (Hb & Hn & Hd & Hr & Hs & Hu).
  repeat split; apply returns_ret; now apply to_int_representable.
Qed.

Lemma bridge_attribute_values_witness :
  int_macros NcursesH.macros /\
  returns (bridge_a_bold NcursesH.macros) 2097152 /\
  returns (bridge_a_normal NcursesH.macros) 0 /\
  returns (bridge_a_dim NcursesH.macros) 1048576 /\
  returns (bridge_a_reverse NcursesH.macros) 262144 /\
  returns (bridge_a_standout NcursesH.macros) 65536 /\
  returns (bridge_a_underline NcursesH.macros) 131072.
Proof.
  assert (Hint : int_macros NcursesH.macros).
  { unfold int_macros, C.is_int. vm_compute. repeat split; discriminate. }
  split; [exact Hint |].
  exact (bridge_attribute_values NcursesH.macros Hint).
Defined.

(** C8: each attribute function is a constant, returning one value in
    every state of every library; with the macro values of ncurses,
    [bridge_a_normal] returns 0 and the values of the other five are
    nonzero, pairwise distinct and without a common bit. *)
Theorem bridge_attributes_constant_disjoint :
  (forall h : curses_macros,
     Forall (fun f => exists v, returns f v)
            (bridge_a_normal h :: attribute_functions h)) /\
  returns (bridge_a_normal NcursesH.macros) 0 /\
  exists flags : list Z,
    Forall2 returns (attribute_functions NcursesH.macros) flags /\
    Forall (fun v => v <> 0) flags /\
    NoDup flags /\
    disjoint_flags flags.
Proof.
  split; [| split].
  - intros h. repeat constructor; eexists; now apply returns_ret.
  - now apply returns_ret.
  - exists [2097152; 1048576; 262144; 65536; 131072].
    split; [| split; [| split]].
    + repeat constructor; now apply returns_ret.
    + repeat constructor; discriminate.
    + apply (bool_decide_unpack _). vm_compute. exact I.
    + simpl. repeat split; repeat constructor.
Qed.

(** ** Attributes carried by the character argument *)

Lemma run_bridge_mvwaddch {T : Type} (W : curses T) (win y x ch : Z)
    (t : T) (m : gmap Z Z) :
  run (ncurses W) (bridge_mvwaddch win y x ch) t m
    = Some (let '(r, t') := mvwaddch_macro W win y x ch t in
            Outcome r t' m [mvwaddch win y x ch]).
Proof.
  unfold bridge_mvwaddch. rewrite run_forward. unfold forwarded. simpl.
  destruct (mvwaddch_macro W win y x ch t); reflexivity.
Qed.

(** C6, as stated, fails: blink is none of the six recognized flags, yet
    writing ['X'] with the blink bit succeeds and the cell takes the bit. *)
Lemma bridge_mvwaddch_accepts_unknown_flag :
  let ch := Z.lor 88 (A_BLINK NcursesH.macros) in
  unknown_flags NcursesH.macros ch <> 0 /\
  exists o, run RefWin.lib (bridge_mvwaddch 1 0 0 ch) (RefWin.newwin 1 3 10) ∅
              = Some o /\
            result o = NcursesH.OK /\
            RefWin.cell (screen o) 1 0 0 = Some ch.
Proof.
  split; [vm_compute; discriminate |].
  eexists. split; [reflexivity |]. split; reflexivity.
Qed.

(** C6, amended: [bridge_mvwaddch] does not look at the attribute bits.  A
    [chtype] with flags outside the recognized set goes to [mvwaddch] as it
    is, and the call succeeds or fails exactly as [mvwaddch] does for that
    same [chtype]. *)
Theorem bridge_mvwaddch_forwards_unknown_flags {T : Type} (W : curses T)
    (h : curses_macros) (win y x ch : Z) (t : T) (m : gmap Z Z) :
  unknown_flags h ch <> 0 ->
  run (ncurses W) (bridge_mvwaddch win y x ch) t m
    = Some (let '(r, t') := mvwaddch_macro W win y x ch t in
            Outcome r t' m [mvwaddch win y x ch]).
Proof. intros _. apply run_bridge_mvwaddch. Qed.

Lemma bridge_mvwaddch_forwards_unknown_flags_witness :
  unknown_flags NcursesH.macros 524376 <> 0 /\
  run RefWin.lib (bridge_mvwaddch 1 0 0 524376) (RefWin.newwin 1 3 10) ∅
    = Some (let '(r, t') :=
              mvwaddch_macro RefWin.ops 1 0 0 524376 (RefWin.newwin 1 3 10) in
            Outcome r t' ∅ [mvwaddch 1 0 0 524376]).
Proof.
  assert (Hflag : unknown_flags NcursesH.macros 524376 <> 0)
    by (vm_compute; discriminate).
  split; [exact Hflag |].
  exact (bridge_mvwaddch_forwards_unknown_flags RefWin.ops NcursesH.macros
           1 0 0 524376 (RefWin.newwin 1 3 10) ∅ Hflag).
Defined.



(** ** The reference window *)







(** * Further properties of the wrappers *)

(** ** Null output pointers *)

Lemma run_bridge_getmaxyx_null {T : Type}
    (lib : call -> T -> option (Z * T)) (win py px : Z) (t : T)
    (m : gmap Z Z) :
  py = C.NULL \/ px = C.NULL ->
  run lib (bridge_getmaxyx win py px) t m = None.
Proof.
  intros Hnull. unfold bridge_getmaxyx. simpl.
  destruct (lib (getmaxy win) t) as [[rows t1] |]; [| reflexivity].
  destruct (decide (py = C.NULL)) as [| Hy]; [reflexivity |].
  destruct Hnull as [Hnull | Hnull]; [contradiction |].
  destruct (lib (getmaxx win) t1) as [[cols t2] |]; [| reflexivity].
  destruct (decide (px = C.NULL)) as [| Hx]; [reflexivity | contradiction].
Qed.

(** X1: [bridge_getmaxyx] has no null check.  When [y] or [x] is the null
    pointer the call has no defined outcome, whatever the library does. *)
Theorem bridge_getmaxyx_null_pointer {T : Type}
    (lib : call -> T -> option (Z * T)) (win py px : Z) (t : T)
    (m : gmap Z Z) :
  py = C.NULL \/ px = C.NULL ->
  run lib (bridge_getmaxyx win py px) t m = None.
Proof. apply run_bridge_getmaxyx_null. Qed.

Lemma bridge_getmaxyx_null_pointer_witness :
  (100 = C.NULL \/ 0 = C.NULL) /\
  run RefWin.lib (bridge_getmaxyx 1 100 0) (RefWin.newwin 1 3 10) ∅ = None.
Proof.
  assert (Hnull : 100 = C.NULL \/ 0 = C.NULL) by (right; reflexivity).
  split; [exact Hnull |].
  exact (bridge_getmaxyx_null_pointer RefWin.lib 1 100 0
           (RefWin.newwin 1 3 10) ∅ Hnull).
Defined.

(** A completed size query had non-null pointers. *)
Lemma bridge_getmaxyx_completes {T : Type}
    (lib : call -> T -> option (Z * T)) (win py px : Z) (t : T)
    (m : gmap Z Z) (o : outcome T unit) :
  run lib (bridge_getmaxyx win py px) t m = Some o ->
  py <> C.NULL /\ px <> C.NULL.
Proof.
  intros Hrun. split; intros Hnull.
  - rewrite (run_bridge_getmaxyx_null lib win py px t m) in Hrun;
      [discriminate | now left].
  - rewrite (run_bridge_getmaxyx_null lib win py px t m) in Hrun;
      [discriminate | now right].
Qed.

(** ** Asking for the size twice *)

(** X2: the size query is idempotent.  With a library whose accessors only
    read, a second [bridge_getmaxyx] with the same arguments, started where
    a first one ended, ends in the same state with the same values in [*y]
    and [*x], also when the two pointers are the same. *)
Theorem bridge_getmaxyx_idempotent {T : Type}
    (lib : call -> T -> option (Z * T)) (win py px : Z) (t : T)
    (m : gmap Z Z) (o : outcome T unit) :
  pure_query lib ->
  run lib (bridge_getmaxyx win py px) t m = Some o ->
  run lib (bridge_getmaxyx win py px) (screen o) (memory o) = Some o.
Proof.
  intros Hpure Hrun.
  destruct (bridge_getmaxyx_completes lib win py px t m o Hrun) as [Hy Hx].
  destruct (Hpure win t) as [[rows Hrows] [cols Hcols]].
  rewrite (run_bridge_getmaxyx lib win py px t m rows cols Hrows Hcols Hy Hx)
    in Hrun.
  injection Hrun as <-. cbn [screen memory].
  rewrite (run_bridge_getmaxyx lib win py px t _ rows cols Hrows Hcols Hy Hx).
  do 2 f_equal.
  apply map_eq. intros i.
  rewrite !lookup_insert. repeat case_decide; congruence.
Qed.

Lemma bridge_getmaxyx_idempotent_witness :
  pure_query RefWin.lib /\
  exists o,
    run RefWin.lib (bridge_getmaxyx 1 100 104) (RefWin.newwin 1 3 10) ∅ = Some o /\
    run RefWin.lib (bridge_getmaxyx 1 100 104) (screen o) (memory o) = Some o.
Proof.
  split; [apply ncurses_pure_query |].
  eexists. split; [reflexivity |].
  apply (bridge_getmaxyx_idempotent RefWin.lib 1 100 104
           (RefWin.newwin 1 3 10) ∅);
    [apply ncurses_pure_query | reflexivity].
Defined.

(** ** Attribute values through [int] *)

Lemma to_int_is_int (v : Z) : C.is_int (C.to_int v).
Proof.
  unfold C.is_int, C.INT_MIN, C.INT_MAX, C.to_int.
  pose proof (Z.mod_pos_bound (v + 2 ^ 31) (2 ^ 32) eq_refl). lia.
Qed.

Lemma to_chtype_to_int (v : Z) :
  C.is_chtype v -> C.to_chtype (C.to_int v) = v.
Proof.
  unfold C.is_chtype, C.CHTYPE_MAX, C.to_chtype, C.to_int. intros Hv.
  rewrite Zminus_mod_idemp_l.
  replace (v + 2 ^ 31 - 2 ^ 31) with v by lia.
  apply Z.mod_small. lia.
Qed.

(** X3: returning the attribute macros as [int] loses nothing.  For a
    header whose six macros are [chtype] values, each [bridge_a_*] function
    returns an [int] that converts back to [chtype] as the macro's value,
    even where that value is too large for an [int]. *)
Theorem bridge_attribute_chtype_round_trip (h : curses_macros) :
  Forall C.is_chtype
    [A_BOLD h; A_NORMAL h; A_DIM h; A_REVERSE h; A_STANDOUT h; A_UNDERLINE h] ->
  Forall2 (fun f v => exists r, returns f r /\ C.is_int r /\ C.to_chtype r = v)
    [bridge_a_bold h; bridge_a_normal h; bridge_a_dim h;
     bridge_a_reverse h; bridge_a_standout h; bridge_a_underline h]
    [A_BOLD h; A_NORMAL h; A_DIM h; A_REVERSE h; A_STANDOUT h; A_UNDERLINE h].
Proof.
  rewrite !Forall_cons_iff. intros (Hb & Hn & Hd & Hr & Hs & Hu & _).
  repeat (constructor;
          [eexists; split; [now apply returns_ret |];
           split; [apply to_int_is_int | now apply to_chtype_to_int] |]).
  constructor.
Qed.

(** A header whose bold bit is the top bit of [chtype]: the function
    returns a negative [int], which still converts back to the macro. *)
Lemma bridge_attribute_chtype_round_trip_witness :
  let h := CursesMacros 0 65536 131072 262144 524288 1048576 2147483648
             255 4294967040 in
  Forall C.is_chtype
    [A_BOLD h; A_NORMAL h; A_DIM h; A_REVERSE h; A_STANDOUT h; A_UNDERLINE h] /\
  returns (bridge_a_bold h) (-2147483648) /\
  Forall2 (fun f v => exists r, returns f r /\ C.is_int r /\ C.to_chtype r = v)
    [bridge_a_bold h; bridge_a_normal h; bridge_a_dim h;
     bridge_a_reverse h; bridge_a_standout h; bridge_a_underline h]
    [A_BOLD h; A_NORMAL h; A_DIM h; A_REVERSE h; A_STANDOUT h; A_UNDERLINE h].
Proof.
  intros h.
  assert (Hch : Forall C.is_chtype
            [A_BOLD h; A_NORMAL h; A_DIM h; A_REVERSE h; A_STANDOUT h;
             A_UNDERLINE h])
    by (repeat constructor; discriminate).
  split; [exact Hch |].
  split; [now apply returns_ret |].
  exact (bridge_attribute_chtype_round_trip h Hch).
Defined.

(** ** Writes whose move fails, empty and one-character strings *)

Lemma bridge_mvwprintw_run {T : Type} (W : curses T) (win y x : Z)
    (str : string) (t : T) (m : gmap Z Z) :
  run (ncurses W) (bridge_mvwprintw win y x str) t m
    = Some (let '(r, t') := mvwaddstr W win y x str t in
            Outcome r t' m [mvwprintw win y x "%s" [VStr str]]).
Proof.
  unfold bridge_mvwprintw. rewrite run_forward.
  unfold forwarded, ncurses, mvwaddstr.
  rewrite vsprintf_percent_s.
  destruct (win_wmove W win y x t) as [r t1].
  destruct (decide (r = NcursesH.ERR)); simpl; [reflexivity |].
  destruct (waddstr W win str t1); reflexivity.
Qed.

(** X4: when the move to [(y, x)] fails, both write wrappers return [ERR]
    and leave the library as the failed move left it: no character of [ch]
    or [str] reaches the window, whatever they are. *)
Theorem bridge_write_move_fails {T : Type} (W : curses T)
    (win y x ch : Z) (str : string) (t : T) (m : gmap Z Z) :
  (win_wmove W win y x t).1 = NcursesH.ERR ->
  run (ncurses W) (bridge_mvwaddch win y x ch) t m
    = Some (Outcome NcursesH.ERR (win_wmove W win y x t).2 m
              [mvwaddch win y x ch]) /\
  run (ncurses W) (bridge_mvwprintw win y x str) t m
    = Some (Outcome NcursesH.ERR (win_wmove W win y x t).2 m
              [mvwprintw win y x "%s" [VStr str]]).
Proof.
  intros Hmove. split.
  - rewrite run_bridge_mvwaddch. unfold mvwaddch_macro.
    destruct (win_wmove W win y x t) as [r t1]. simpl in Hmove. subst r.
    destruct (decide (NcursesH.ERR = NcursesH.ERR)); [reflexivity | contradiction].
  - rewrite bridge_mvwprintw_run. unfold mvwaddstr.
    destruct (win_wmove W win y x t) as [r t1]. simpl in Hmove. subst r.
    destruct (decide (NcursesH.ERR = NcursesH.ERR)); [reflexivity | contradiction].
Qed.

Lemma bridge_write_move_fails_witness :
  (win_wmove RefWin.ops 1 0 10 (RefWin.newwin 1 3 10)).1 = NcursesH.ERR /\
  run RefWin.lib (bridge_mvwaddch 1 0 10 88) (RefWin.newwin 1 3 10) ∅
    = Some (Outcome NcursesH.ERR (RefWin.newwin 1 3 10) ∅ [mvwaddch 1 0 10 88]) /\
  run RefWin.lib (bridge_mvwprintw 1 0 10 "%d") (RefWin.newwin 1 3 10) ∅
    = Some (Outcome NcursesH.ERR (RefWin.newwin 1 3 10) ∅
              [mvwprintw 1 0 10 "%s" [VStr "%d"]]).
Proof.
  assert (Hmove : (win_wmove RefWin.ops 1 0 10 (RefWin.newwin 1 3 10)).1
                  = NcursesH.ERR) by reflexivity.
  split; [exact Hmove |].
  exact (bridge_write_move_fails RefWin.ops 1 0 10 88 "%d"
           (RefWin.newwin 1 3 10) ∅ Hmove).
Defined.

(** X5: [bridge_mvwprintw] with the empty string writes nothing and is a
    move of the cursor: where [wmove] answers [OK] or [ERR], the call has
    the result and the effect of [wmove(win, y, x)]. *)
Theorem bridge_mvwprintw_empty_is_wmove {T : Type} (W : curses T)
    (win y x : Z) (t : T) (m : gmap Z Z) :
  (win_wmove W win y x t).1 = NcursesH.OK \/
  (win_wmove W win y x t).1 = NcursesH.ERR ->
  behaviour <$> run (ncurses W) (bridge_mvwprintw win y x "") t m
    = behaviour <$> forwarded (ncurses W) (wmove win y x) t m.
Proof.
  intros Hstatus. rewrite bridge_mvwprintw_run.
  unfold mvwaddstr, forwarded, ncurses.
  destruct (win_wmove W win y x t) as [r t1]. simpl in Hstatus.
  destruct (decide (r = NcursesH.ERR)) as [-> | Hok]; [reflexivity |].
  destruct Hstatus as [-> | ->]; [reflexivity | contradiction].
Qed.

Lemma bridge_mvwprintw_empty_is_wmove_witness :
  ((win_wmove RefWin.ops 1 2 5 (RefWin.newwin 1 3 10)).1 = NcursesH.OK \/
   (win_wmove RefWin.ops 1 2 5 (RefWin.newwin 1 3 10)).1 = NcursesH.ERR) /\
  behaviour <$> run RefWin.lib (bridge_mvwprintw 1 2 5 "") (RefWin.newwin 1 3 10) ∅
    = behaviour <$> forwarded RefWin.lib (wmove 1 2 5) (RefWin.newwin 1 3 10) ∅.
Proof.
  assert (Hstatus :
            (win_wmove RefWin.ops 1 2 5 (RefWin.newwin 1 3 10)).1 = NcursesH.OK \/
            (win_wmove RefWin.ops 1 2 5 (RefWin.newwin 1 3 10)).1 = NcursesH.ERR)
    by (left; reflexivity).
  split; [exact Hstatus |].
  exact (bridge_mvwprintw_empty_is_wmove RefWin.ops 1 2 5
           (RefWin.newwin 1 3 10) ∅ Hstatus).
Defined.

(** X6: writing a one-character string is writing that character.  Where
    [waddch] answers [OK] or [ERR] for it after the move,
    [bridge_mvwprintw(win, y, x, "c")] has the result and the effect of
    [bridge_mvwaddch(win, y, x, c)] with [c] as an [unsigned char] and no
    attribute. *)
Theorem bridge_mvwprintw_one_char_is_mvwaddch {T : Type} (W : curses T)
    (win y x : Z) (c : ascii) (t : T) (m : gmap Z Z) :
  (let t1 := (win_wmove W win y x t).2 in
   (win_waddch W win (C.uchar c) t1).1 = NcursesH.OK \/
   (win_waddch W win (C.uchar c) t1).1 = NcursesH.ERR) ->
  behaviour <$> run (ncurses W) (bridge_mvwprintw win y x (String c "")) t m
    = behaviour <$> run (ncurses W) (bridge_mvwaddch win y x (C.uchar c)) t m.
Proof.
  intros Hstatus. rewrite bridge_mvwprintw_run, run_bridge_mvwaddch.
  unfold mvwaddstr, mvwaddch_macro.
  destruct (win_wmove W win y x t) as [r t1]. simpl in Hstatus.
  destruct (decide (r = NcursesH.ERR)); [reflexivity |].
  simpl. destruct (win_waddch W win (C.uchar c) t1) as [r2 t2].
  simpl in Hstatus.
  destruct (decide (r2 = NcursesH.ERR)) as [-> | Hok]; [reflexivity |].
  destruct Hstatus as [-> | ->]; [reflexivity | contradiction].
Qed.

Lemma bridge_mvwprintw_one_char_is_mvwaddch_witness :
  (let t1 := (win_wmove RefWin.ops 1 0 0 (RefWin.newwin 1 3 10)).2 in
   (win_waddch RefWin.ops 1 (C.uchar "%") t1).1 = NcursesH.OK \/
   (win_waddch RefWin.ops 1 (C.uchar "%") t1).1 = NcursesH.ERR) /\
  behaviour <$> run RefWin.lib (bridge_mvwprintw 1 0 0 "%") (RefWin.newwin 1 3 10) ∅
    = behaviour <$> run RefWin.lib (bridge_mvwaddch 1 0 0 37) (RefWin.newwin 1 3 10) ∅.
Proof.
  assert (Hstatus :
            let t1 := (win_wmove RefWin.ops 1 0 0 (RefWin.newwin 1 3 10)).2 in
            (win_waddch RefWin.ops 1 (C.uchar "%") t1).1 = NcursesH.OK \/
            (win_waddch RefWin.ops 1 (C.uchar "%") t1).1 = NcursesH.ERR)
    by (left; reflexivity).
  split; [exact Hstatus |].
  exact (bridge_mvwprintw_one_char_is_mvwaddch RefWin.ops 1 0 0 "%"
           (RefWin.newwin 1 3 10) ∅ Hstatus).
Defined.

(** ** Combining the attribute values *)

Lemma returns_inj (v w : Z) : returns (Ret v) w -> v = w.
Proof.
  intros Hret.
  specialize (Hret unit (fun _ _ => None) tt ∅). simpl in Hret.
  now injection Hret.
Qed.

Lemma disjoint_flags_elem (l : list Z) (a b : Z) :
  disjoint_flags l -> a ∈ l -> b ∈ l -> a <> b -> Z.land a b = 0.
Proof.
  induction l as [| c l IH]; simpl; intros Hd Ha Hb Hne.
  - now apply elem_of_nil in Ha.
  - destruct Hd as [Hc Hl]. rewrite Forall_forall in Hc.
    apply elem_of_cons in Ha as [-> | Ha]; apply elem_of_cons in Hb as [-> | Hb].
    + contradiction.
    + now apply Hc.
    + rewrite Z.land_comm. now apply Hc.
    + now apply IH.
Qed.

Lemma flags_test (flags S : list Z) (f : Z) :
  disjoint_flags flags -> S ⊆ flags -> f ∈ flags ->
  Z.land (foldr Z.lor 0 S) f = if decide (f ∈ S) then f else 0.
Proof.
  intros Hdisj Hsub Hf. induction S as [| a S IH]; cbn [foldr].
  - rewrite Z.land_0_l.
    destruct (decide (f ∈ [])) as [Hin |]; [| reflexivity].
    now apply elem_of_nil in Hin.
  - assert (Ha : a ∈ flags) by (apply Hsub; left).
    assert (HS : S ⊆ flags) by (intros b Hb; apply Hsub; now right).
    rewrite Z.land_lor_distr_l, (IH HS).
    destruct (decide (a = f)) as [-> | Hne].
    + rewrite Z.land_diag.
      rewrite (decide_True (P := f ∈ f :: S)) by left.
      destruct (decide (f ∈ S)); [apply Z.lor_diag | apply Z.lor_0_r].
    + rewrite (disjoint_flags_elem flags a f Hdisj Ha Hf Hne), Z.lor_0_l.
      destruct (decide (f ∈ S)) as [Hin | Hout].
      * rewrite (decide_True (P := f ∈ a :: S)) by now right.
        reflexivity.
      * rewrite (decide_False (P := f ∈ a :: S)); [reflexivity |].
        rewrite elem_of_cons. intros [Heq | Hin]; [congruence | contradiction].
Qed.

Lemma flags_no_chartext (mask : Z) (flags S : list Z) :
  Forall (fun f => Z.land f mask = 0) flags -> S ⊆ flags ->
  Z.land (foldr Z.lor 0 S) mask = 0.
Proof.
  rewrite Forall_forall. intros Hflags Hsub.
  induction S as [| a S IH]; cbn [foldr]; [apply Z.land_0_l |].
  rewrite Z.land_lor_distr_l, IH by (intros b Hb; apply Hsub; now right).
  rewrite Hflags by (apply Hsub; left). reflexivity.
Qed.

(** X7: with the macro values of ncurses, attributes combine by or and are
    told apart by and.  For any selection [S] of the values returned by
    [bridge_a_bold], [bridge_a_dim], [bridge_a_reverse],
    [bridge_a_standout] and [bridge_a_underline], the or of [S] and-ed with
    one of the five values is that value when it is in [S] and 0 when it
    is not, and the or of [S] has no bit in the character part. *)
Theorem bridge_attribute_flags_set_and_test (flags S : list Z) (f : Z) :
  Forall2 returns (attribute_functions NcursesH.macros) flags ->
  S ⊆ flags -> f ∈ flags ->
  Z.land (foldr Z.lor 0 S) f = (if decide (f ∈ S) then f else 0) /\
  Z.land (foldr Z.lor 0 S) (A_CHARTEXT NcursesH.macros) = 0.
Proof.
  intros Hret Hsub Hf.
  assert (Hflags : flags = [2097152; 1048576; 262144; 65536; 131072]).
  { unfold attribute_functions in Hret.
    repeat match goal with
           | H : Forall2 _ (_ :: _) _ |- _ =>
               apply Forall2_cons_inv_l in H as (? & ? & ?%returns_inj & H & ->)
           end.
    apply Forall2_nil_inv_l in Hret as ->. subst. reflexivity. }
  subst flags. split.
  - apply (flags_test [2097152; 1048576; 262144; 65536; 131072]);
      [simpl; repeat split; repeat constructor | exact Hsub | exact Hf].
  - apply (flags_no_chartext _ [2097152; 1048576; 262144; 65536; 131072]);
      [repeat constructor | exact Hsub].
Qed.

Lemma bridge_attribute_flags_set_and_test_witness :
  let flags := [2097152; 1048576; 262144; 65536; 131072] in
  Forall2 returns (attribute_functions NcursesH.macros) flags /\
  [2097152; 131072] ⊆ flags /\ 262144 ∈ flags /\
  Z.land (Z.lor 2097152 131072) 262144 = 0 /\
  Z.land (Z.lor 2097152 131072) (A_CHARTEXT NcursesH.macros) = 0.
Proof.
  intros flags.
  assert (Hret : Forall2 returns (attribute_functions NcursesH.macros) flags)
    by (repeat constructor; now apply returns_ret).
  assert (Hsub : [2097152; 131072] ⊆ flags).
  { intros b Hb. subst flags. rewrite !elem_of_cons in Hb. rewrite !elem_of_cons.
    destruct Hb as [-> | [-> | Hb]]; [now left | now do 4 right; left |].
    now apply elem_of_nil in Hb. }
  assert (Hf : 262144 ∈ flags) by (subst flags; do 2 right; left).
  split; [exact Hret |].
  split; [exact Hsub |].
  split; [exact Hf |].
  exact (bridge_attribute_flags_set_and_test flags [2097152; 131072] 262144
           Hret Hsub Hf).
Defined.

(** ** The surface of the header *)

Lemma answers_query_size (win py px : Z) :
  well_formed (query_size win py px) ->
  answers (call_getmaxyx win py px) (query_size win py px).
Proof.
  intros (Hy & Hx & _) T W h t m _. unfold entry_outcome, carried_out.
  rewrite (run_bridge_getmaxyx (ncurses W) win py px t m _ _
             eq_refl eq_refl Hy Hx).
  reflexivity.
Qed.

Lemma answers_move_cursor (win y x : Z) :
  answers (call_mvwprintw win y x "") (move_cursor win y x).
Proof.
  intros T W h t m Hconv. unfold entry_outcome, carried_out.
  rewrite bridge_mvwprintw_run. unfold mvwaddstr.
  specialize (Hconv win y x t).
  destruct (win_wmove W win y x t) as [r t1]. simpl in Hconv.
  destruct (decide (r = NcursesH.ERR)) as [-> | Hok]; [reflexivity |].
  destruct Hconv as [-> | ->]; [reflexivity | contradiction].
Qed.

Lemma answers_write_char_at (win y x ch : Z) :
  answers (call_mvwaddch win y x ch) (write_char_at win y x ch).
Proof.
  intros T W h t m _. unfold entry_outcome, carried_out.
  rewrite run_bridge_mvwaddch.
  destruct (mvwaddch_macro W win y x ch t); reflexivity.
Qed.

(** *** What no call of the header changes on the reference terminal *)

Lemma same_attrs_and_keys_refl (t : RefWin.terminal) : same_attrs_and_keys t t.
Proof. split; reflexivity. Qed.

Lemma same_attrs_and_keys_trans (t1 t2 t3 : RefWin.terminal) :
  same_attrs_and_keys t1 t2 -> same_attrs_and_keys t2 t3 ->
  same_attrs_and_keys t1 t3.
Proof.
  intros [Hk12 Ha12] [Hk23 Ha23]. split; [congruence |].
  intros win. now rewrite Ha23.
Qed.

Lemma on_window_same (win : Z) (f : RefWin.WINDOW -> Z * RefWin.WINDOW)
    (t : RefWin.terminal) :
  (forall w, RefWin._attrs (f w).2 = RefWin._attrs w) ->
  same_attrs_and_keys t (RefWin.on_window win f t).2.
Proof.
  intros Hf. unfold RefWin.on_window.
  destruct (RefWin.windows t !! win) as [w |] eqn:Hw;
    [| apply same_attrs_and_keys_refl].
  specialize (Hf w). destruct (f w) as [r w']. simpl in Hf.
  split; [reflexivity |].
  intros win'. unfold RefWin.attrs_of. simpl.
  destruct (decide (win = win')) as [<- | Hne].
  - rewrite lookup_insert_eq, Hw. simpl. now rewrite Hf.
  - now rewrite lookup_insert_ne.
Qed.

Lemma move_attrs (y x : Z) (w : RefWin.WINDOW) :
  RefWin._attrs (RefWin.move y x w).2 = RefWin._attrs w.
Proof. unfold RefWin.move. destruct (RefWin.legal w y x); reflexivity. Qed.

Lemma waddch_literal_attrs (ch : Z) (w : RefWin.WINDOW) :
  RefWin._attrs (RefWin.waddch_literal ch w).2 = RefWin._attrs w.
Proof.
  unfold RefWin.waddch_literal, RefWin.wrap_to_next_line.
  repeat match goal with
         | |- context [if ?b then _ else _] => destruct b
         end; reflexivity.
Qed.

Lemma wclrtoeol_attrs (w : RefWin.WINDOW) :
  RefWin._attrs (RefWin.wclrtoeol w) = RefWin._attrs w.
Proof.
  unfold RefWin.wclrtoeol.
  match goal with |- context [if ?b then _ else _] => destruct b end;
    reflexivity.
Qed.

Lemma tab_fill_attrs (n : nat) (sp x : Z) (w : RefWin.WINDOW) :
  RefWin._attrs (RefWin.tab_fill n sp x w).2 = RefWin._attrs w.
Proof.
  revert w. induction n as [| n IH]; intros w; simpl; [reflexivity |].
  destruct (RefWin._curx w <? x); [| reflexivity].
  pose proof (waddch_literal_attrs sp w) as Hlit.
  destruct (RefWin.waddch_literal sp w) as [r w']. simpl in Hlit.
  destruct (decide (r = NcursesH.ERR)); simpl; [exact Hlit |].
  now rewrite IH.
Qed.

Lemma add_literals_attrs (cs : list Z) (attrs : Z) (w : RefWin.WINDOW) :
  RefWin._attrs (RefWin.add_literals cs attrs w).2 = RefWin._attrs w.
Proof.
  revert w. induction cs as [| c cs IH]; intros w; simpl; [reflexivity |].
  pose proof (waddch_literal_attrs (Z.lor c attrs) w) as Hlit.
  destruct (RefWin.waddch_literal (Z.lor c attrs) w) as [r w']. simpl in Hlit.
  destruct (decide (r = NcursesH.ERR)); simpl; [exact Hlit |].
  now rewrite IH.
Qed.

Lemma addch_attrs (ch : Z) (w : RefWin.WINDOW) :
  RefWin._attrs (RefWin.addch ch w).2 = RefWin._attrs w.
Proof.
  unfold RefWin.addch.
  destruct (_ || _ || _); [apply waddch_literal_attrs |].
  destruct (negb _); [reflexivity |].
  destruct (_ =? 9).
  { destruct (_ || _).
    - pose proof (tab_fill_attrs
                    (Z.to_nat (RefWin._curx w + (8 - RefWin._curx w `mod` 8)
                               - RefWin._curx w))
                    (Z.lor RefWin.blank (Z.land ch (A_ATTRIBUTES NcursesH.macros)))
                    (RefWin._curx w + (8 - RefWin._curx w `mod` 8)) w) as Htab.
      destruct (RefWin.tab_fill _ _ _ w) as [x'' w']. exact Htab.
    - simpl. apply wclrtoeol_attrs. }
  destruct (_ =? 10).
  { destruct (_ =? _); simpl; apply wclrtoeol_attrs. }
  destruct (_ =? 13); [reflexivity |].
  destruct (_ =? 8); [destruct (_ =? 0); reflexivity |].
  apply add_literals_attrs.
Qed.

Lemma ref_wmove_same (win y x : Z) (t : RefWin.terminal) :
  same_attrs_and_keys t (RefWin.ref_wmove win y x t).2.
Proof. apply on_window_same, move_attrs. Qed.

Lemma ref_waddch_same (win ch : Z) (t : RefWin.terminal) :
  same_attrs_and_keys t (RefWin.ref_waddch win ch t).2.
Proof. apply on_window_same, addch_attrs. Qed.

Lemma ref_waddstr_same (win : Z) (s : string) (t : RefWin.terminal) :
  same_attrs_and_keys t (waddstr RefWin.ops win s t).2.
Proof.
  revert t. induction s as [| c s IH]; intros t; simpl;
    [apply same_attrs_and_keys_refl |].
  pose proof (ref_waddch_same win (C.uchar c) t) as Hch.
  destruct (RefWin.ref_waddch win (C.uchar c) t) as [r t1]. simpl in Hch.
  destruct (decide (r = NcursesH.ERR)); [exact Hch |].
  exact (same_attrs_and_keys_trans _ _ _ Hch (IH t1)).
Qed.

Lemma ref_conventional : conventional RefWin.ops.
Proof.
  intros win y x t. simpl. unfold RefWin.ref_wmove, RefWin.on_window.
  destruct (RefWin.windows t !! win) as [w |]; [| now right].
  unfold RefWin.move. destruct (RefWin.legal w y x); [now left | now right].
Qed.

(** Whatever function of the header is called and with whatever
    arguments, the windows keep their attributes and the keys typed ahead
    stay unread. *)
Lemma entry_outcome_same (h : curses_macros) (e : entry)
    (t t' : RefWin.terminal) (m m' : gmap Z Z) (r : option Z) :
  entry_outcome h RefWin.lib e t m = Some (r, t', m') ->
  same_attrs_and_keys t t'.
Proof.
  unfold RefWin.lib. destruct e; unfold entry_outcome.
  - simpl. destruct (decide (y = C.NULL)); [discriminate |].
    destruct (decide (x = C.NULL)); [discriminate |].
    simpl. intros [= _ <- _]. apply same_attrs_and_keys_refl.
  - rewrite bridge_mvwprintw_run. unfold mvwaddstr. simpl.
    pose proof (ref_wmove_same win y x t) as Hmove.
    destruct (RefWin.ref_wmove win y x t) as [r1 t1]. simpl in Hmove.
    destruct (decide (r1 = NcursesH.ERR)).
    + simpl. intros [= _ <- _]. exact Hmove.
    + pose proof (ref_waddstr_same win str t1) as Hstr.
      destruct (waddstr RefWin.ops win str t1) as [r2 t2]. simpl in Hstr.
      simpl. intros [= _ <- _].
      exact (same_attrs_and_keys_trans _ _ _ Hmove Hstr).
  - rewrite run_bridge_mvwaddch. unfold mvwaddch_macro. simpl.
    pose proof (ref_wmove_same win y x t) as Hmove.
    destruct (RefWin.ref_wmove win y x t) as [r1 t1]. simpl in Hmove.
    destruct (decide (r1 = NcursesH.ERR)).
    + simpl. intros [= _ <- _]. exact Hmove.
    + pose proof (ref_waddch_same win ch t1) as Hch.
      destruct (RefWin.ref_waddch win ch t1) as [r2 t2]. simpl in Hch.
      simpl. intros [= _ <- _].
      exact (same_attrs_and_keys_trans _ _ _ Hmove Hch).
  - intros [= _ <- _]. apply same_attrs_and_keys_refl.
  - intros [= _ <- _]. apply same_attrs_and_keys_refl.
  - intros [= _ <- _]. apply same_attrs_and_keys_refl.
  - intros [= _ <- _]. apply same_attrs_and_keys_refl.
  - intros [= _ <- _]. apply same_attrs_and_keys_refl.
  - intros [= _ <- _]. apply same_attrs_and_keys_refl.
Qed.

(** A request whose carrying out changes a window attribute or reads a
    key is answered by no call of the header. *)
Lemma unanswered (q : request) (t : RefWin.terminal) :
  ~ same_attrs_and_keys t (carried_out RefWin.ops q t ∅).1.2 ->
  forall e : entry, ~ answers e q.
Proof.
  intros Hdiff e Hans.
  specialize (Hans RefWin.terminal RefWin.ops NcursesH.macros t ∅
                ref_conventional).
  destruct (carried_out RefWin.ops q t ∅) as [[r t'] m'].
  apply entry_outcome_same in Hans. contradiction.
Qed.

Lemma unanswered_set_attribute (e : entry) :
  ~ answers e (set_attribute 1 (A_BOLD NcursesH.macros)).
Proof.
  apply (unanswered _ (RefWin.newwin 1 3 10)).
  intros [_ Hattrs]. specialize (Hattrs 1). vm_compute in Hattrs.
  discriminate Hattrs.
Qed.

Lemma unanswered_clear_attribute (e : entry) :
  ~ answers e (clear_attribute 1 (A_BOLD NcursesH.macros)).
Proof.
  apply (unanswered _ (RefWin.ref_wattron 1 (A_BOLD NcursesH.macros)
                         (RefWin.newwin 1 3 10)).2).
  intros [_ Hattrs]. specialize (Hattrs 1). vm_compute in Hattrs.
  discriminate Hattrs.
Qed.

Lemma unanswered_read_key (e : entry) : ~ answers e (read_key 1).
Proof.
  apply (unanswered _ (RefWin.Terminal (RefWin.windows (RefWin.newwin 1 3 10))
                         [65])).
  intros [Hkeys _]. vm_compute in Hkeys. discriminate Hkeys.
Qed.

(** C3, as stated, fails: no call of a function of the header has the
    effect of [wattron], of [wattroff] or of [wgetch], so the header has
    no operation that sets a window attribute, none that clears one and
    none that reads a key. *)
Lemma bridge_sets_no_attribute_and_reads_no_key :
  ~ provides SetAttribute /\ ~ provides ClearAttribute /\ ~ provides ReadKey.
Proof.
  split; [| split]; intros Hp.
  - destruct (Hp (set_attribute 1 (A_BOLD NcursesH.macros)) eq_refl I)
      as [e He].
    exact (unanswered_set_attribute e He).
  - destruct (Hp (clear_attribute 1 (A_BOLD NcursesH.macros)) eq_refl I)
      as [e He].
    exact (unanswered_clear_attribute e He).
  - destruct (Hp (read_key 1) eq_refl I) as [e He].
    exact (unanswered_read_key e He).
Qed.

(** C3, amended: the header provides three of the five capabilities.  It
    answers the window size query ([bridge_getmaxyx], through two distinct
    non-null pointers), the cursor move ([bridge_mvwprintw] with the empty
    string has the result and the effect of [wmove]) and the write of a
    character at a position ([bridge_mvwaddch]).  Its six attribute
    functions return a value and leave the library and the caller's
    memory as they were.  No call of the header sets or clears a window
    attribute or reads a key. *)
Theorem bridge_capabilities :
  provides QuerySize /\
  provides MoveCursor /\
  provides WriteCharAt /\
  ~ provides SetAttribute /\
  ~ provides ClearAttribute /\
  ~ provides ReadKey /\
  forall (T : Type) (h : curses_macros) (lib : call -> T -> option (Z * T))
         (t : T) (m : gmap Z Z),
    Forall (fun e => exists v, entry_outcome h lib e t m = Some (Some v, t, m))
           [call_a_bold; call_a_normal; call_a_dim; call_a_reverse;
            call_a_standout; call_a_underline].
Proof.
  split; [| split; [| split; [| split; [| split; [| split]]]]].
  - intros q Hcap Hwf. destruct q; try discriminate Hcap.
    eexists. now apply answers_query_size.
  - intros q Hcap _. destruct q; try discriminate Hcap.
    eexists. apply answers_move_cursor.
  - intros q Hcap _. destruct q; try discriminate Hcap.
    eexists. apply answers_write_char_at.
  - intros Hp.
    destruct (Hp (set_attribute 1 (A_BOLD NcursesH.macros)) eq_refl I)
      as [e He].
    exact (unanswered_set_attribute e He).
  - intros Hp.
    destruct (Hp (clear_attribute 1 (A_BOLD NcursesH.macros)) eq_refl I)
      as [e He].
    exact (unanswered_clear_attribute e He).
  - intros Hp. destruct (Hp (read_key 1) eq_refl I) as [e He].
    exact (unanswered_read_key e He).
  - intros T h lib t m. repeat constructor; eexists; reflexivity.
Qed.
